(** * libRSF: the Sum-Mixture error model (include/error_models/SumMixture.h)

    A shallow embedding of [SumMixture<Dim, MixtureType, SpecialNormalization>]
    and of the two members that carry its behaviour, [addMixture] and
    [weight<T>].

    The class is a template over the scalar type [T] of the residual (a plain
    [double] or an automatic-differentiation jet) while the normalization
    constant is always a [double].  The embedding keeps this shape: the
    arithmetic is an interface ([Arith]) with one carrier for [double] and one
    for [T], and every definition is written against the interface.  The
    structural theorems hold for every instance; the theorems that need
    algebra are stated over the instance of exact real arithmetic
    ([Exact]); the instance of the machine numbers is [Binary64]. *)

#[local] Set Warnings "-stdlib-vector".
From Stdlib Require Import ZArith List Bool Lia Permutation.
From Stdlib Require Vector.
From Stdlib Require PrimFloat.
From Stdlib Require Import Reals Lra.
Import ListNotations.

Local Open Scope Z_scope.

(** ** The arithmetic that the templates are instantiated with *)

(** [D] stands for [double], [T] for the template parameter of [weight].
    Only the operations that occur in SumMixture.h are listed.  The three
    floating literals of the file are [0.5], [2.0] and [1e-10]; every other
    constant in it is an [int] that C++ converts ([d_of_int]). *)
Class Arith (D T : Type) : Type := {
  d_of_int : Z -> D;
  d_lit_0_5 : D;
  d_lit_2_0 : D;
  d_lit_1e_10 : D;
  d_neg : D -> D;
  d_add : D -> D -> D;
  d_mul : D -> D -> D;
  d_ltb : D -> D -> bool;
  d_log : D -> D;
  d_sqrt : D -> D;
  cast : D -> T;
  t_add : T -> T -> T;
  t_sub : T -> T -> T;
  t_mul : T -> T -> T;
  t_div : T -> T -> T;
  t_sqrt : T -> T
}.

(** [std::max(a, b)] is [(a < b) ? b : a]. *)
Definition std_max {D T} `{Arith D T} (a b : D) : D :=
  if d_ltb a b then b else a.

(** ** Control: the counted [for] loop and failure *)

Definition bind {A B} (o : option A) (k : A -> option B) : option B :=
  match o with
  | Some a => k a
  | None => None
  end.

Notation "x <- c ;; k" := (bind c (fun x => k))
  (at level 61, c at next level, right associativity).

(** [for_range count n body s] runs [body n], [body (n+1)], ... [count]
    times, threading the state and stopping at the first failure. *)
Fixpoint for_range {S : Type} (count : nat) (n : Z)
    (body : Z -> S -> option S) (s : S) : option S :=
  match count with
  | O => Some s
  | S c => s' <- body n s ;; for_range c (n + 1) body s'
  end.

(** [for (int n = lo; n < hi; ++n) body] *)
Definition for_loop {S : Type} (lo hi : Z)
    (body : Z -> S -> option S) (s : S) : option S :=
  for_range (Z.to_nat (hi - lo)) lo body s.

(** ** Dynamic arrays: [MatrixT<T, Dynamic, 1> A(n)] *)

(** A freshly sized dynamic vector holds no defined value in any cell. *)
Definition new_array {A : Type} (n : Z) : list (option A) :=
  List.repeat None (Z.to_nat n).

Fixpoint set_nat {A : Type} (l : list (option A)) (i : nat) (v : A)
    : option (list (option A)) :=
  match l, i with
  | [], _ => None
  | _ :: r, O => Some (Some v :: r)
  | c :: r, S j => r' <- set_nat r j v ;; Some (c :: r')
  end.

(** [A(i) = v]; an index outside the array is a failure. *)
Definition array_set {A : Type} (l : list (option A)) (i : Z) (v : A)
    : option (list (option A)) :=
  if i <? 0 then None else set_nat l (Z.to_nat i) v.

(** Reading the whole array, as the combinator does: every cell must have
    been written. *)
Fixpoint array_read {A : Type} (l : list (option A)) : option (list A) :=
  match l with
  | [] => Some []
  | c :: r => v <- c ;; vs <- array_read r ;; Some (v :: vs)
  end.

(** ** Fixed-size vectors: [VectorT<T, Dim>] *)

Definition VectorT (A : Type) (n : nat) : Type := Vector.t A n.

(** ** The interfaces of the collaborators *)

(** Modelled from the spec: GaussianMixture.h is not part of the sources.
    The spec (sections 3 and 4.1) describes a mixture as an ordered sequence
    of components whose sequence index is the identity used by the
    per-component queries.  A component is seen only through the three
    queries that SumMixture.h calls: the exponential part and the linear
    part, both generic in [T], and the maximum, always a [double]. *)
Class MixtureQueries (D T : Type) (Dim : nat) (Component : Type) : Type := {
  getExponentialPart : Component -> VectorT T Dim -> VectorT T Dim;
  getLinearPart : Component -> VectorT T Dim -> T;
  getMaximum : Component -> D
}.

(** Modelled from the spec: NumericalRobust.h is not part of the sources.
    [ScaledLogSumExp(Exponents, Scalings)] is a parameter of the development;
    its reading in exact arithmetic is the instance [Exact.real_combinator]. *)
Class Combinator (T : Type) : Type := {
  ScaledLogSumExp : list T -> list T -> T
}.

Section SumMixture.

Context {D T : Type} {AR : Arith D T}.
Context {Dim : nat} {Component : Type}.
Context {MQ : MixtureQueries D T Dim Component} {CB : Combinator T}.

(** Template parameter [SpecialNormalization]. *)
Variable SpecialNormalization : bool.

(** [v.squaredNorm()]: the sum of the squares of the coefficients, the
    reduction starting from the first coefficient; the empty sum is zero. *)
Definition squaredNorm {n : nat} (v : VectorT T n) : T :=
  match Vector.to_list v with
  | [] => cast (d_of_int 0)
  | x :: r => fold_left (fun a y => t_add a (t_mul y y)) r (t_mul x x)
  end.

(** *** The mixture that the model owns *)

Definition MixtureType : Type := list Component.

(** Modelled from the spec: [numberOfComponents()]. *)
Definition getNumberOfComponents (m : MixtureType) : Z :=
  Z.of_nat (length m).

(** Modelled from the spec: access to the component of a sequence index;
    an index that names no component yields no value. *)
Definition component_at (m : MixtureType) (n : Z) : option Component :=
  if n <? 0 then None else nth_error m (Z.to_nat n).

(** Modelled from the spec: [exponentialPart(i, rawError)]. *)
Definition getExponentialPartOfComponent (m : MixtureType) (n : Z)
    (RawError : VectorT T Dim) : option (VectorT T Dim) :=
  c <- component_at m n ;; Some (getExponentialPart c RawError).

(** Modelled from the spec: [linearPart(i, rawError)]. *)
Definition getLinearPartOfComponent (m : MixtureType) (n : Z)
    (RawError : VectorT T Dim) : option T :=
  c <- component_at m n ;; Some (getLinearPart c RawError).

(** Modelled from the spec: [maximumOfComponent(i)]. *)
Definition getMaximumOfComponent (m : MixtureType) (n : Z) : option D :=
  c <- component_at m n ;; Some (getMaximum c).

(** *** The object *)

(** The data members: [_Mixture] and [_Normalization] of SumMixture, and
    [_Enable] inherited from ErrorModel. *)
Record SumMixture : Type := mkSumMixture {
  _Mixture : MixtureType;
  _Normalization : D;
  _Enable : bool
}.

Definition set_Normalization (self : SumMixture) (v : D) : SumMixture :=
  mkSumMixture (_Mixture self) v (_Enable self).

Definition set_Mixture (self : SumMixture) (m : MixtureType) : SumMixture :=
  mkSumMixture m (_Normalization self) (_Enable self).

(** [void clear()] *)
Definition clear (self : SumMixture) : SumMixture :=
  set_Mixture (set_Normalization self (d_of_int 0)) [].

(** *** [void addMixture(const MixtureType &Mixture)] *)

(** Body of the loop of the original version:
    [_Normalization += _Mixture.getMaximumOfComponent(nComponent)]. *)
Definition addMixture_sum_body (nComponent : Z) (self : SumMixture)
    : option SumMixture :=
  mx <- getMaximumOfComponent (_Mixture self) nComponent ;;
  Some (set_Normalization self (d_add (_Normalization self) mx)).

(** Body of the loop of the second version:
    [_Normalization = std::max(_Normalization, getMaximumOfComponent(n))]. *)
Definition addMixture_max_body (nComponent : Z) (self : SumMixture)
    : option SumMixture :=
  mx <- getMaximumOfComponent (_Mixture self) nComponent ;;
  Some (set_Normalization self (std_max (_Normalization self) mx)).

Definition addMixture (self : SumMixture) (Mixture : MixtureType)
    : option SumMixture :=
  let self := set_Mixture self Mixture in
  let NumberOfComponents := getNumberOfComponents (_Mixture self) in
  if negb SpecialNormalization then
    let self := set_Normalization self (d_of_int 0) in
    for_loop 0 NumberOfComponents addMixture_sum_body self
  else
    mx0 <- getMaximumOfComponent (_Mixture self) 0 ;;
    let self := set_Normalization self mx0 in
    self <- for_loop 1 NumberOfComponents addMixture_max_body self ;;
    Some (set_Normalization self
            (d_add (d_mul (_Normalization self) (d_of_int NumberOfComponents))
                   (d_of_int 10))).

(** *** [bool weight(const VectorT<T, Dim> &RawError, T* Error) const] *)

(** The two dynamic vectors that the loop of [weight] fills. *)
Record weight_arrays : Type := mkArrays {
  Scalings : list (option T);
  Exponents : list (option T)
}.

(** Body of the loop that calculates all exponents and scalings.  The
    linear part already has type [T] (spec, section 4.1), so the conversion
    [T(...)] around it is the identity. *)
Definition weight_body (self : SumMixture) (RawError : VectorT T Dim)
    (nComponent : Z) (a : weight_arrays) : option weight_arrays :=
  ep <- getExponentialPartOfComponent (_Mixture self) nComponent RawError ;;
  E <- array_set (Exponents a) nComponent
         (t_mul (cast (d_neg d_lit_0_5))
                (t_add (squaredNorm ep) (cast d_lit_1e_10))) ;;
  lp <- getLinearPartOfComponent (_Mixture self) nComponent RawError ;;
  S <- array_set (Scalings a) nComponent lp ;;
  Some (mkArrays S E).

(** The arguments that the enabled branch hands to the combinator, in the
    order of the call: exponents first, scalings second. *)
Definition weight_arguments (self : SumMixture) (RawError : VectorT T Dim)
    : option (list T * list T) :=
  let NumberOfComponents := getNumberOfComponents (_Mixture self) in
  let a := mkArrays (new_array NumberOfComponents)
                    (new_array NumberOfComponents) in
  a <- for_loop 0 NumberOfComponents (weight_body self RawError) a ;;
  E <- array_read (Exponents a) ;;
  S <- array_read (Scalings a) ;;
  Some (E, S).

(** The scalar that the enabled branch fills the output with:
    [sqrt(-2.0 * (ScaledLogSumExp(Exponents, Scalings)
                  - log(_Normalization + 1e-10))) / sqrt(Dim)]. *)
Definition robust_magnitude (self : SumMixture) (E S : list T) : T :=
  t_div
    (t_sqrt
       (t_mul (cast (d_neg d_lit_2_0))
              (t_sub (ScaledLogSumExp E S)
                     (cast (d_log (d_add (_Normalization self)
                                         d_lit_1e_10))))))
    (cast (d_sqrt (d_of_int (Z.of_nat Dim)))).

(** What a call leaves behind: the returned [bool], the object (the method
    is [const]: it ends with the object it started with) and the contents
    of the caller's buffer [Error]. *)
Record weight_result : Type := mkResult {
  returned : bool;
  object_after : SumMixture;
  Error_after : VectorT T Dim
}.

Definition weight (self : SumMixture) (RawError : VectorT T Dim)
    (Error : VectorT T Dim) : option weight_result :=
  if _Enable self then
    args <- weight_arguments self RawError ;;
    let Error :=
      Vector.const (robust_magnitude self (fst args) (snd args)) Dim in
    Some (mkResult true self Error)
  else
    let Error := RawError in
    Some (mkResult true self Error).

(** *** The quantities that the spec names *)

(** The sum of the component maxima, accumulated from zero in the order of
    the sequence. *)
Definition sum_of_maxima (m : MixtureType) : D :=
  fold_left d_add (map getMaximum m) (d_of_int 0).

(** The largest component maximum of a mixture whose first component is
    [c]. *)
Definition max_of_maxima (c : Component) (r : MixtureType) : D :=
  fold_left std_max (map getMaximum r) (getMaximum c).

(** The exponent and the scale of one component at a raw error. *)
Definition exponent_of (RawError : VectorT T Dim) (c : Component) : T :=
  t_mul (cast (d_neg d_lit_0_5))
        (t_add (squaredNorm (getExponentialPart c RawError))
               (cast d_lit_1e_10)).

Definition scale_of (RawError : VectorT T Dim) (c : Component) : T :=
  getLinearPart c RawError.

End SumMixture.

Arguments SumMixture : clear implicits.
Arguments MixtureType : clear implicits.
Arguments weight_result : clear implicits.
Arguments robust_magnitude {D T AR} Dim {Component CB} self E S.

(** ** Exact arithmetic: the instance over the real numbers *)

Module Exact.

Local Open Scope R_scope.

Definition Rltb (a b : R) : bool :=
  if Rlt_dec a b then true else false.

(** Both [double] and [T] are read as real numbers and every operation as
    the exact one; the conversion from [double] to [T] is the identity. *)
#[export] Instance real_arith : Arith R R := {|
  d_of_int := IZR;
  d_lit_0_5 := 0.5;
  d_lit_2_0 := 2.0;
  d_lit_1e_10 := 1e-10;
  d_neg := Ropp;
  d_add := Rplus;
  d_mul := Rmult;
  d_ltb := Rltb;
  d_log := ln;
  d_sqrt := sqrt;
  cast := fun d => d;
  t_add := Rplus;
  t_sub := Rminus;
  t_mul := Rmult;
  t_div := Rdiv;
  t_sqrt := sqrt
|}.

(** The largest exponent of a sequence. *)
Definition max_exponent (E : list R) : R :=
  match E with
  | [] => 0
  | e :: r => fold_left Rmax r e
  end.

(** The sum of [s_i * exp(e_i - M)] over the aligned pairs. *)
Definition shifted_sum (M : R) (ES : list (R * R)) : R :=
  fold_right (fun p acc => snd p * exp (fst p - M) + acc) 0 ES.

(** Modelled from the spec: NumericalRobust.h is not part of the sources.
    Section 4.2 of the spec: the combinator computes
    [log(sum_i s_i * exp(e_i))] by subtracting the maximum exponent before
    exponentiating and adding it back after taking the logarithm. *)
Definition ScaledLogSumExp_exact (E S : list R) : R :=
  let M := max_exponent E in
  M + ln (shifted_sum M (combine E S)).

#[export] Instance real_combinator : Combinator R := {|
  ScaledLogSumExp := ScaledLogSumExp_exact
|}.

(** Modelled from the spec: GaussianMixture.h is not part of the sources.
    A one-dimensional weighted Gaussian hypothesis (spec, section 3): the
    exponential part is the raw error centred and scaled by the standard
    deviation, the linear part is the weight times the density prefactor,
    and the maximum is the peak density of the weighted component. *)
Record Gaussian1 : Type := mkGaussian1 {
  Mean : R;
  StdDev : R;
  Weight : R
}.

Definition Gaussian1_prefactor (c : Gaussian1) : R :=
  Weight c / (StdDev c * sqrt (2 * PI)).

#[export] Instance Gaussian1_queries : MixtureQueries R R 1 Gaussian1 := {|
  getExponentialPart := fun c x =>
    Vector.cons R ((Vector.hd x - Mean c) / StdDev c) 0 (Vector.nil R);
  getLinearPart := fun c _ => Gaussian1_prefactor c;
  getMaximum := fun c => Gaussian1_prefactor c
|}.

(** The mixture of the concrete scenario of the spec: means 0 and 5,
    standard deviation 1 and weight 0.5 for both. *)
Definition near_component : Gaussian1 := mkGaussian1 0 1 0.5.
Definition far_component : Gaussian1 := mkGaussian1 5 1 0.5.
Definition scenario_mixture : MixtureType Gaussian1 :=
  [near_component; far_component].

(** A hypothesis of weight zero, which the data model admits (weights are
    non-negative). *)
Definition silent_component : Gaussian1 := mkGaussian1 0 1 0.

Definition vector1 (x : R) : VectorT R 1 :=
  Vector.cons R x 0 (Vector.nil R).

(** A freshly constructed object: [_Normalization = 0], no component, and
    the error model switched on or off. *)
Definition fresh (enable : bool) : SumMixture R Gaussian1 :=
  mkSumMixture [] 0 enable.

(** The object that holds [near_component] alone with the normalization
    constant of the standard strategy, switched on. *)
Definition near_model : SumMixture R Gaussian1 :=
  mkSumMixture [near_component] (Gaussian1_prefactor near_component) true.

(** The object that holds the mixture of the scenario with the
    normalization constant of the standard strategy, switched on or off. *)
Definition scenario_model (enable : bool) : SumMixture R Gaussian1 :=
  mkSumMixture scenario_mixture (sum_of_maxima scenario_mixture) enable.

(** A combinator is a symmetric reduction when reordering the aligned
    (exponent, scale) pairs does not change its value. *)
Definition symmetric_reduction (CB : Combinator R) : Prop :=
  forall ES ES' : list (R * R),
    Permutation ES ES' ->
    ScaledLogSumExp (map fst ES) (map snd ES)
    = ScaledLogSumExp (map fst ES') (map snd ES').

(** The sum of a sequence of reals. *)
Definition Rsum (l : list R) : R := fold_right Rplus 0 l.

(** The robust cost of section 4.4 of the spec, in the spec's words:
    [-2 * (L - log(N + 1e-10))] for the combined value [L] and the
    normalization constant [N]. *)
Definition robust_cost (L N : R) : R := -2 * (L - ln (N + 1e-10)).

(** The magnitude [m] of section 4.4 of the spec, in the spec's words:
    [sqrt(-2 * (L - log(N + 1e-10))) / sqrt(Dim)]. *)
Definition spec_magnitude (Dim : nat) (L N : R) : R :=
  sqrt (robust_cost L N) / sqrt (INR Dim).

End Exact.

(** ** The constructors of SumMixture *)

Section Construction.

Context {D T : Type} {AR : Arith D T}.
Context {Dim : nat} {Component : Type}.
Context {MQ : MixtureQueries D T Dim Component}.

(** Template parameter [SpecialNormalization]. *)
Variable SpecialNormalization : bool.

(** [SumMixture()]: the mixture member is default-constructed, hence empty,
    and the body sets [_Normalization = 0].  The flag [_Enable] is set by the
    constructor of the base class ErrorModel, which is not part of the
    sources; its value is the parameter [enable]. *)
Definition SumMixture_default (enable : bool) : SumMixture D Component :=
  mkSumMixture [] (d_of_int 0) enable.

(** [explicit SumMixture(const MixtureType &Mixture)]: the body is the single
    call [this->addMixture(Mixture)].  No initializer is given for the
    [double] member, so when the call starts [_Normalization] holds an
    indeterminate value, the parameter [indeterminate]. *)
Definition SumMixture_from_mixture (enable : bool) (indeterminate : D)
    (Mixture : MixtureType Component) : option (SumMixture D Component) :=
  addMixture SpecialNormalization
    (mkSumMixture [] indeterminate enable) Mixture.

End Construction.

(** ** Geometry.h: simple geometric helper functions *)

Module Geometry.

(** The operations on the template parameter [T] that Geometry.h uses:
    [ceres::cos], [ceres::sin], unary minus, and the sum, difference and
    product that the Eigen expressions expand to. *)
Class Trig (T : Type) : Type := {
  g_cos : T -> T;
  g_sin : T -> T;
  g_neg : T -> T;
  g_add : T -> T -> T;
  g_sub : T -> T -> T;
  g_mul : T -> T -> T
}.

(** [Eigen::Matrix<T, 2, 2>], by coefficient (row, column). *)
Record Matrix22 (T : Type) : Type := mkMatrix22 {
  m00 : T;
  m01 : T;
  m10 : T;
  m11 : T
}.

Arguments mkMatrix22 {T} _ _ _ _.
Arguments m00 {T} _.
Arguments m01 {T} _.
Arguments m10 {T} _.
Arguments m11 {T} _.

(** [Eigen::Matrix<T, 2, 1>(x, y)] *)
Definition vector2 {T : Type} (x y : T) : VectorT T 2 :=
  Vector.cons T x 1 (Vector.cons T y 0 (Vector.nil T)).

Definition vector3 {T : Type} (x y z : T) : VectorT T 3 :=
  Vector.cons T x 2 (vector2 y z).

Definition coeff0 {T : Type} {n : nat} (v : VectorT T (S n)) : T :=
  Vector.hd v.

Definition coeff1 {T : Type} {n : nat} (v : VectorT T (S (S n))) : T :=
  Vector.hd (Vector.tl v).

Definition coeff2 {T : Type} {n : nat} (v : VectorT T (S (S (S n)))) : T :=
  Vector.hd (Vector.tl (Vector.tl v)).

Section Functions.

Context {T : Type} {TR : Trig T}.

(** [M.transpose()] *)
Definition transpose (M : Matrix22 T) : Matrix22 T :=
  mkMatrix22 (m00 M) (m10 M) (m01 M) (m11 M).

(** [M * v]: coefficient [i] is the product of row [i] with [v]. *)
Definition matrix_times_vector (M : Matrix22 T) (v : VectorT T 2) : VectorT T 2 :=
  vector2 (g_add (g_mul (m00 M) (coeff0 v)) (g_mul (m01 M) (coeff1 v)))
          (g_add (g_mul (m10 M) (coeff0 v)) (g_mul (m11 M) (coeff1 v))).

(** [a - b] on two-dimensional vectors. *)
Definition vector_difference (a b : VectorT T 2) : VectorT T 2 :=
  vector2 (g_sub (coeff0 a) (coeff0 b)) (g_sub (coeff1 a) (coeff1 b)).

(** [a + b] on two-dimensional vectors. *)
Definition vector_sum (a b : VectorT T 2) : VectorT T 2 :=
  vector2 (g_add (coeff0 a) (coeff0 b)) (g_add (coeff1 a) (coeff1 b)).

(** [Eigen::Matrix<T, 2, 2> RotationMatrix2D(T Yaw)] *)
Definition RotationMatrix2D (Yaw : T) : Matrix22 T :=
  let CosYaw := g_cos Yaw in
  let SinYaw := g_sin Yaw in
  mkMatrix22 CosYaw (g_neg SinYaw)
             SinYaw CosYaw.

(** NormalizeAngle.h is not part of the sources: the function is a
    parameter. *)
Variable NormalizeAngle : T -> T.

(** [Eigen::Matrix<T, 3, 1> RelativeMotion2D(const T* PointOld,
    const T* PointNew, const T* YawOld, const T* const YawNew)].  A pointer
    argument is the sequence of values it points to; reading past its end
    is a failure. *)
Definition RelativeMotion2D (PointOld PointNew YawOld YawNew : list T)
    : option (VectorT T 3) :=
  po0 <- nth_error PointOld 0 ;;
  po1 <- nth_error PointOld 1 ;;
  let POld := vector2 po0 po1 in
  pn0 <- nth_error PointNew 0 ;;
  pn1 <- nth_error PointNew 1 ;;
  let PNew := vector2 pn0 pn1 in
  yo <- nth_error YawOld 0 ;;
  let head := matrix_times_vector (transpose (RotationMatrix2D yo))
                                  (vector_difference PNew POld) in
  yn <- nth_error YawNew 0 ;;
  Some (vector3 (coeff0 head) (coeff1 head) (NormalizeAngle (g_sub yn yo))).

End Functions.

(** Exact arithmetic for Geometry.h. *)
#[export] Instance real_trig : Trig R := {|
  g_cos := cos;
  g_sin := sin;
  g_neg := Ropp;
  g_add := Rplus;
  g_sub := Rminus;
  g_mul := Rmult
|}.

(** The squared Euclidean length of a two-dimensional real vector. *)
Definition squared_length (v : VectorT R 2) : R :=
  (coeff0 v * coeff0 v + coeff1 v * coeff1 v)%R.

(** The pose [(P, Yaw)] moved by the rigid motion that turns by [angle] and
    then shifts by [shift]. *)
Definition moved_point (angle : R) (shift P : VectorT R 2) : VectorT R 2 :=
  vector_sum (matrix_times_vector (RotationMatrix2D angle) P) shift.

(** The values that a pointer to the coefficients of a two-dimensional
    vector points to. *)
Definition coordinates (v : VectorT R 2) : list R := [coeff0 v; coeff1 v].

End Geometry.

(** ** A mixture type with stored scales and maxima *)

(** [MixtureType] is a template parameter of SumMixture: every type with
    the four queries can be attached.  A component of this mixture type is a
    hypothesis centred at zero with unit deviation (its exponential part is
    the raw error itself) that reports the scale and the maximum it was
    built with. *)
Record Plain (D T : Type) : Type := mkPlain {
  plain_scale : T;
  plain_maximum : D
}.

Arguments mkPlain {D T} _ _.
Arguments plain_scale {D T} _.
Arguments plain_maximum {D T} _.

#[global] Instance Plain_queries {D T : Type}
  : MixtureQueries D T 1 (Plain D T) := {|
  getExponentialPart := fun _ x => x;
  getLinearPart := fun c _ => plain_scale c;
  getMaximum := fun c => plain_maximum c
|}.

(** ** Machine arithmetic: the instance over binary64 *)

Module Binary64.

Import PrimFloat.
#[local] Set Warnings "-inexact-float".

(** The conversion of an [int] to [double]; exact for every 32-bit value. *)
Fixpoint float_of_positive (p : positive) : float :=
  match p with
  | xH => 1%float
  | xO q => (2 * float_of_positive q)%float
  | xI q => (2 * float_of_positive q + 1)%float
  end.

Definition float_of_Z (z : Z) : float :=
  match z with
  | Z0 => 0%float
  | Zpos p => float_of_positive p
  | Zneg p => (- float_of_positive p)%float
  end.

(** Both [double] and [T] are IEEE 754 binary64 numbers with the operations
    of the machine, rounded to nearest.  [std::log] is a function of the C
    library that the primitive numbers do not provide: it is the parameter
    [log64]. *)
Definition binary64_arith (log64 : float -> float) : Arith float float := {|
  d_of_int := float_of_Z;
  d_lit_0_5 := 0.5%float;
  d_lit_2_0 := 2.0%float;
  d_lit_1e_10 := 1e-10%float;
  d_neg := opp;
  d_add := add;
  d_mul := mul;
  d_ltb := ltb;
  d_log := log64;
  d_sqrt := sqrt;
  cast := fun d => d;
  t_add := add;
  t_sub := sub;
  t_mul := mul;
  t_div := div;
  t_sqrt := sqrt
|}.

(** Three components with maxima 0.1, 0.2 and 0.7. *)
Definition tenths : MixtureType (Plain float float) :=
  [mkPlain 0.1 0.1; mkPlain 0.2 0.2; mkPlain 0.7 0.7]%float.

(** A default-constructed object, switched on. *)
Definition start : SumMixture float (Plain float float) :=
  mkSumMixture [] (float_of_Z 0) true.

End Binary64.

(** ** Further inputs in exact arithmetic *)


(** A mixture of two Gaussian hypotheses that differ in mean, deviation and
    weight. *)
Definition uneven_mixture : MixtureType Exact.Gaussian1 :=
  [Exact.mkGaussian1 0 1 0.7; Exact.mkGaussian1 5 2 0.3]%R.

(** The same two hypotheses in the opposite order. *)
Definition uneven_mixture_swapped : MixtureType Exact.Gaussian1 :=
  [Exact.mkGaussian1 5 2 0.3; Exact.mkGaussian1 0 1 0.7]%R.

(** * Properties *)

(** ** Dynamic arrays *)

Lemma set_nat_middle {A : Type} (l1 : list (option A)) c l2 v :
  set_nat (l1 ++ c :: l2) (length l1) v = Some (l1 ++ Some v :: l2).
Proof.
  induction l1 as [| h l1 IH]; simpl.
  - reflexivity.
  - now rewrite IH.
Qed.

Lemma array_set_middle {A : Type} (l1 : list (option A)) c l2 i v :
  i = Z.of_nat (length l1) ->
  array_set (l1 ++ c :: l2) i v = Some (l1 ++ Some v :: l2).
Proof.
  intros ->. unfold array_set.
  destruct (Z.ltb_spec (Z.of_nat (length l1)) 0); [lia |].
  rewrite Nat2Z.id. apply set_nat_middle.
Qed.

Lemma array_read_written {A : Type} (l : list A) :
  array_read (map Some l) = Some l.
Proof.
  induction l as [| x l IH]; simpl.
  - reflexivity.
  - now rewrite IH.
Qed.

(** ** The loops *)

(** [for_loop] obeys the two equations of the C++ loop
    [for (int n = lo; n < hi; ++n)]: it stops when the test fails and
    otherwise runs the body at [lo] and continues from [lo + 1]. *)
Lemma for_loop_exit {S : Type} lo hi (body : Z -> S -> option S) s :
  hi <= lo -> for_loop lo hi body s = Some s.
Proof.
  intros H. unfold for_loop.
  replace (Z.to_nat (hi - lo)) with O by lia.
  reflexivity.
Qed.

Lemma for_loop_iterate {S : Type} lo hi (body : Z -> S -> option S) s :
  lo < hi ->
  for_loop lo hi body s = (s' <- body lo s ;; for_loop (lo + 1) hi body s').
Proof.
  intros H. unfold for_loop.
  replace (Z.to_nat (hi - lo)) with (Datatypes.S (Z.to_nat (hi - (lo + 1))))
    by lia.
  reflexivity.
Qed.

Section Loops.

Context {D T : Type} {AR : Arith D T}.
Context {Dim : nat} {Component : Type}.
Context {MQ : MixtureQueries D T Dim Component} {CB : Combinator T}.

Implicit Types (m pre rest : MixtureType Component).
Implicit Types (self : SumMixture D Component).

Lemma component_at_middle pre c rest :
  component_at (pre ++ c :: rest) (Z.of_nat (length pre)) = Some c.
Proof.
  unfold component_at.
  destruct (Z.ltb_spec (Z.of_nat (length pre)) 0) as [H | _]; [lia |].
  rewrite Nat2Z.id, nth_error_app2 by lia.
  now rewrite Nat.sub_diag.
Qed.

Lemma component_at_outside m n :
  Z.of_nat (length m) <= n -> component_at m n = None.
Proof.
  intros H. unfold component_at.
  destruct (Z.ltb_spec n 0); [reflexivity |].
  apply nth_error_None. lia.
Qed.

Lemma for_loop_from_0 {S : Type} m (body : Z -> S -> option S) s :
  for_loop 0 (getNumberOfComponents m) body s
  = for_range (length m) 0 body s.
Proof.
  unfold for_loop, getNumberOfComponents.
  now rewrite Z.sub_0_r, Nat2Z.id.
Qed.

Lemma for_loop_from_1 {S : Type} c rest (body : Z -> S -> option S) s :
  for_loop 1 (getNumberOfComponents (c :: rest)) body s
  = for_range (length rest) 1 body s.
Proof.
  unfold for_loop, getNumberOfComponents.
  replace (Z.to_nat (Z.of_nat (length (c :: rest)) - 1)) with (length rest)
    by (simpl length; lia).
  reflexivity.
Qed.

Lemma next_index pre (c : Component) :
  Z.of_nat (length pre) + 1 = Z.of_nat (length (pre ++ [c])).
Proof. rewrite length_app. simpl. lia. Qed.

(** The accumulating loop of the original version: started after [pre], it
    adds the maxima of the remaining components, left to right. *)
Lemma sum_loop rest : forall pre self,
  _Mixture self = pre ++ rest ->
  for_range (length rest) (Z.of_nat (length pre)) addMixture_sum_body self
  = Some (set_Normalization self
            (fold_left d_add (map getMaximum rest) (_Normalization self))).
Proof.
  induction rest as [| c rest IH]; intros pre self Hm; simpl.
  - destruct self; reflexivity.
  - unfold addMixture_sum_body at 1, getMaximumOfComponent.
    rewrite Hm, component_at_middle. simpl.
    rewrite (next_index pre c), IH.
    + reflexivity.
    + simpl. rewrite Hm, <- app_assoc. reflexivity.
Qed.

(** The maximum loop of the second version. *)
Lemma max_loop rest : forall pre self,
  _Mixture self = pre ++ rest ->
  for_range (length rest) (Z.of_nat (length pre)) addMixture_max_body self
  = Some (set_Normalization self
            (fold_left std_max (map getMaximum rest) (_Normalization self))).
Proof.
  induction rest as [| c rest IH]; intros pre self Hm; simpl.
  - destruct self; reflexivity.
  - unfold addMixture_max_body at 1, getMaximumOfComponent.
    rewrite Hm, component_at_middle. simpl.
    rewrite (next_index pre c), IH.
    + reflexivity.
    + simpl. rewrite Hm, <- app_assoc. reflexivity.
Qed.

(** The loop of [weight]: started after [pre] on arrays whose first cells
    hold the values of [pre] and whose other cells were never written, it
    ends with every cell written, cell [i] holding the value of component
    [i]. *)
Lemma weight_loop self (x : VectorT T Dim) rest : forall pre a,
  _Mixture self = pre ++ rest ->
  Exponents a
  = map Some (map (exponent_of x) pre) ++ List.repeat None (length rest) ->
  Scalings a
  = map Some (map (scale_of x) pre) ++ List.repeat None (length rest) ->
  for_range (length rest) (Z.of_nat (length pre)) (weight_body self x) a
  = Some (mkArrays (map Some (map (scale_of x) (pre ++ rest)))
                   (map Some (map (exponent_of x) (pre ++ rest)))).
Proof.
  induction rest as [| c rest IH]; intros pre a Hm HE HS; simpl.
  - simpl in HE, HS. rewrite app_nil_r in *.
    destruct a; simpl in *; now subst.
  - unfold weight_body at 1.
    unfold getExponentialPartOfComponent, getLinearPartOfComponent.
    rewrite Hm, component_at_middle, HE, HS. simpl.
    rewrite !array_set_middle by now rewrite !length_map.
    simpl.
    rewrite (next_index pre c), IH.
    + now rewrite <- app_assoc.
    + now rewrite Hm, <- app_assoc.
    + simpl. now rewrite !map_app, <- app_assoc.
    + simpl. now rewrite !map_app, <- app_assoc.
Qed.

(** The enabled branch always reaches the combinator, and hands it the
    exponents and the scales of the components in the order of the
    mixture. *)
Lemma weight_arguments_spec self (x : VectorT T Dim) :
  weight_arguments self x
  = Some (map (exponent_of x) (_Mixture self),
          map (scale_of x) (_Mixture self)).
Proof.
  unfold weight_arguments.
  rewrite for_loop_from_0.
  rewrite (weight_loop self x (_Mixture self) [] _ eq_refl).
  - simpl. now rewrite !array_read_written.
  - unfold new_array, getNumberOfComponents. simpl. now rewrite Nat2Z.id.
  - unfold new_array, getNumberOfComponents. simpl. now rewrite Nat2Z.id.
Qed.

(** *** What [addMixture] stores *)

Lemma addMixture_standard self m :
  addMixture false self m
  = Some (mkSumMixture m (sum_of_maxima m) (_Enable self)).
Proof.
  unfold addMixture. simpl negb. cbv iota. cbv zeta.
  simpl _Mixture at 1. rewrite for_loop_from_0.
  rewrite (sum_loop m []
             (set_Normalization (set_Mixture self m) (d_of_int 0)))
    by reflexivity.
  reflexivity.
Qed.

Lemma addMixture_special self c rest :
  addMixture true self (c :: rest)
  = Some (mkSumMixture (c :: rest)
            (d_add (d_mul (max_of_maxima c rest)
                          (d_of_int (getNumberOfComponents (c :: rest))))
                   (d_of_int 10))
            (_Enable self)).
Proof.
  unfold addMixture. simpl negb. cbv iota. cbv zeta.
  simpl _Mixture at 1 2.
  unfold getMaximumOfComponent at 1.
  change (component_at (c :: rest) 0) with (Some c). simpl bind.
  rewrite for_loop_from_1.
  rewrite (max_loop rest [c]
             (set_Normalization (set_Mixture self (c :: rest))
                                (getMaximum c)))
    by reflexivity.
  reflexivity.
Qed.

Lemma addMixture_special_empty self :
  addMixture true self [] = None.
Proof. reflexivity. Qed.

End Loops.

(** ** Properties that hold in every arithmetic *)

Section Structural.

Context {D T : Type} {AR : Arith D T}.
Context {Dim : nat} {Component : Type}.
Context {MQ : MixtureQueries D T Dim Component} {CB : Combinator T}.

Implicit Types (m : MixtureType Component) (self : SumMixture D Component).
Implicit Types (x buf : VectorT T Dim).

(** The enabled branch in closed form. *)
Lemma weight_enabled self x buf :
  _Enable self = true ->
  weight self x buf
  = Some (mkResult true self
            (Vector.const
               (robust_magnitude Dim self
                  (map (exponent_of x) (_Mixture self))
                  (map (scale_of x) (_Mixture self)))
               Dim)).
Proof.
  intros He. unfold weight.
  now rewrite He, weight_arguments_spec.
Qed.

Lemma weight_total self x buf :
  exists r, weight self x buf = Some r.
Proof.
  destruct (_Enable self) eqn:He.
  - eexists. now apply weight_enabled.
  - eexists. unfold weight. now rewrite He.
Qed.

Lemma nth_error_in_range {A B : Type} (f : A -> B) (l : list A) i :
  0 <= i < Z.of_nat (length l) ->
  exists a, nth_error l (Z.to_nat i) = Some a
            /\ nth_error (map f l) (Z.to_nat i) = Some (f a).
Proof.
  intros Hi.
  destruct (nth_error l (Z.to_nat i)) as [a |] eqn:Hn.
  - exists a. split; [reflexivity |]. now apply map_nth_error.
  - apply nth_error_None in Hn. lia.
Qed.

(** C2.  Disabled identity: when the model is disabled, [weight] succeeds
    and leaves in the caller's buffer exactly the raw error it was given,
    whatever mixture and normalization constant the object holds and
    whatever the buffer held before. *)
Theorem weight_disabled_identity self x buf :
  _Enable self = false ->
  exists r, weight self x buf = Some r /\ Error_after r = x.
Proof.
  intros He. unfold weight. rewrite He.
  eexists. split; reflexivity.
Qed.

(** C3.  In every enabled evaluation [weight] reaches the combinator with
    two sequences [E], [S] that have one entry per component, and for every
    component index [i] the entry [E(i)] is
    [-0.5 * (squaredNorm(exponentialPart(i, x)) + 1e-10)] and the entry
    [S(i)] is [linearPart(i, x)]; the output is filled with the magnitude
    computed from exactly these two sequences. *)
Theorem weight_combinator_arguments self x buf i :
  _Enable self = true ->
  0 <= i < getNumberOfComponents (_Mixture self) ->
  exists E S ep lp,
    weight_arguments self x = Some (E, S)
    /\ weight self x buf
       = Some (mkResult true self
                 (Vector.const (robust_magnitude Dim self E S) Dim))
    /\ Z.of_nat (length E) = getNumberOfComponents (_Mixture self)
    /\ Z.of_nat (length S) = getNumberOfComponents (_Mixture self)
    /\ getExponentialPartOfComponent (_Mixture self) i x = Some ep
    /\ getLinearPartOfComponent (_Mixture self) i x = Some lp
    /\ nth_error E (Z.to_nat i)
       = Some (t_mul (cast (d_neg d_lit_0_5))
                     (t_add (squaredNorm ep) (cast d_lit_1e_10)))
    /\ nth_error S (Z.to_nat i) = Some lp.
Proof.
  intros He Hi. unfold getNumberOfComponents in *.
  destruct (nth_error_in_range (exponent_of x) (_Mixture self) i Hi)
    as (c & Hc & HE).
  pose proof (map_nth_error (scale_of x) _ _ Hc) as HS.
  assert (Hat : component_at (_Mixture self) i = Some c).
  { unfold component_at. destruct (Z.ltb_spec i 0); [lia | exact Hc]. }
  exists (map (exponent_of x) (_Mixture self)),
         (map (scale_of x) (_Mixture self)),
         (getExponentialPart c x), (getLinearPart c x).
  rewrite !length_map.
  unfold getExponentialPartOfComponent, getLinearPartOfComponent.
  rewrite Hat. simpl.
  repeat split; auto using weight_arguments_spec, weight_enabled.
Qed.

(** C4.  Standard strategy: attaching a mixture with at least one component
    succeeds, stores the mixture, and stores as normalization constant the
    sum of [maximumOfComponent(i)] over all components. *)
Theorem addMixture_standard_normalization self c rest :
  exists self',
    addMixture false self (c :: rest) = Some self'
    /\ _Mixture self' = c :: rest
    /\ _Normalization self' = sum_of_maxima (c :: rest).
Proof.
  rewrite addMixture_standard.
  eexists. repeat split.
Qed.

(** C5.  Alternative strategy: attaching a mixture with at least one
    component succeeds, stores the mixture, and stores as normalization
    constant the largest [maximumOfComponent(i)] multiplied by the number
    of components, plus 10. *)
Theorem addMixture_special_normalization self c rest :
  exists self',
    addMixture true self (c :: rest) = Some self'
    /\ _Mixture self' = c :: rest
    /\ _Normalization self'
       = d_add (d_mul (max_of_maxima c rest)
                      (d_of_int (getNumberOfComponents (c :: rest))))
               (d_of_int 10).
Proof.
  rewrite addMixture_special.
  eexists. repeat split.
Qed.

(** C8.  Frame: every call of [weight] ends with the object it started
    with: the owned mixture, the normalization constant and the enable
    flag are those of before the call, enabled or not. *)
Theorem weight_leaves_object_unchanged self x buf :
  exists r,
    weight self x buf = Some r
    /\ object_after r = self
    /\ _Mixture (object_after r) = _Mixture self
    /\ _Normalization (object_after r) = _Normalization self
    /\ _Enable (object_after r) = _Enable self.
Proof.
  destruct (_Enable self) eqn:He.
  - eexists. split; [now apply weight_enabled |]. simpl. auto.
  - eexists. unfold weight. rewrite He. simpl. auto.
Qed.

(** C9.  Every call of [weight] returns, and the value it returns is
    [true], for every object, raw error and buffer. *)
Theorem weight_returns_true self x buf :
  exists r, weight self x buf = Some r /\ returned r = true.
Proof.
  destruct (_Enable self) eqn:He.
  - eexists. split; [now apply weight_enabled | reflexivity].
  - eexists. unfold weight. rewrite He. split; reflexivity.
Qed.

(** C10.  The empty mixture.  Under the standard strategy the attachment
    completes and stores the normalization constant 0.  Under the
    alternative strategy the attachment reads component 0 before anything
    else: it completes exactly when that read does, which is exactly when
    the mixture has at least one component. *)
Theorem addMixture_empty_mixture self :
  (exists self',
      addMixture false self [] = Some self'
      /\ _Mixture self' = []
      /\ _Normalization self' = d_of_int 0)
  /\ (forall m,
         addMixture true self m = None
         <-> getMaximumOfComponent m 0 = None)
  /\ (forall m, getMaximumOfComponent m 0 = None <-> m = []).
Proof.
  split; [| split].
  - rewrite addMixture_standard. eexists. repeat split.
  - intros [| c rest].
    + split; reflexivity.
    + rewrite addMixture_special. split; discriminate.
  - intros [| c rest]; split; try reflexivity; discriminate.
Qed.

End Structural.

(** ** Properties in exact arithmetic *)

#[local] Existing Instance Exact.real_arith.

Section ExactArithmetic.

Import Exact.
Local Open Scope R_scope.

(** *** Sums and maxima of sequences of reals *)

Lemma std_max_Rmax (a b : R) : std_max a b = Rmax a b.
Proof.
  unfold std_max, Rmax. simpl. unfold Rltb.
  destruct (Rlt_dec a b), (Rle_dec a b); lra.
Qed.

Lemma fold_std_max_Rmax (l : list R) : forall a,
  fold_left std_max l a = fold_left Rmax l a.
Proof.
  induction l as [| b l IH]; intros a; simpl.
  - reflexivity.
  - now rewrite std_max_Rmax, IH.
Qed.

Lemma fold_plus_Rsum (l : list R) : forall a,
  fold_left Rplus l a = a + Rsum l.
Proof.
  induction l as [| b l IH]; intros a; simpl.
  - lra.
  - rewrite IH. lra.
Qed.

Lemma Rsum_Permutation (l l' : list R) :
  Permutation l l' -> Rsum l = Rsum l'.
Proof.
  induction 1; simpl; lra.
Qed.

Lemma Rsum_nonneg (l : list R) :
  (forall v, In v l -> 0 <= v) -> 0 <= Rsum l.
Proof.
  induction l as [| b l IH]; intros H; simpl.
  - lra.
  - assert (0 <= b) by (apply H; now left).
    assert (0 <= Rsum l) by (apply IH; intros; apply H; now right).
    lra.
Qed.

Lemma Rsum_pos (l : list R) v :
  (forall w, In w l -> 0 <= w) -> In v l -> 0 < v -> 0 < Rsum l.
Proof.
  induction l as [| b l IH]; intros H Hin Hv; simpl.
  - contradiction.
  - assert (0 <= b) by (apply H; now left).
    assert (0 <= Rsum l) by (apply Rsum_nonneg; intros; apply H; now right).
    destruct Hin as [-> | Hin].
    + lra.
    + assert (0 < Rsum l) by (apply IH; auto; intros; apply H; now right).
      lra.
Qed.

Lemma fold_Rmax_ge_init (l : list R) : forall a, a <= fold_left Rmax l a.
Proof.
  induction l as [| b l IH]; intros a; simpl.
  - lra.
  - specialize (IH (Rmax a b)). pose proof (Rmax_l a b). lra.
Qed.

Lemma fold_Rmax_ge_elem (l : list R) : forall a v,
  In v l -> v <= fold_left Rmax l a.
Proof.
  induction l as [| b l IH]; intros a v Hin; simpl.
  - contradiction.
  - destruct Hin as [-> | Hin].
    + pose proof (fold_Rmax_ge_init l (Rmax a v)).
      pose proof (Rmax_r a v). lra.
    + now apply IH.
Qed.

Lemma fold_Rmax_attained (l : list R) : forall a,
  In (fold_left Rmax l a) (a :: l).
Proof.
  induction l as [| b l IH]; intros a; simpl.
  - now left.
  - destruct (IH (Rmax a b)) as [H | H].
    + rewrite <- H. unfold Rmax. destruct (Rle_dec a b); auto.
    + auto.
Qed.

(** The maximum of a non-empty sequence does not depend on its order. *)
Lemma fold_Rmax_Permutation (a a' : R) (l l' : list R) :
  Permutation (a :: l) (a' :: l') ->
  fold_left Rmax l a = fold_left Rmax l' a'.
Proof.
  intros HP.
  assert (Hle : forall b k b' k', Permutation (b :: k) (b' :: k') ->
                fold_left Rmax k b <= fold_left Rmax k' b').
  { intros b k b' k' H.
    pose proof (fold_Rmax_attained k b) as Hin.
    apply (Permutation_in _ H) in Hin.
    destruct Hin as [<- | Hin].
    - apply fold_Rmax_ge_init.
    - now apply fold_Rmax_ge_elem. }
  apply Rle_antisym; apply Hle; [assumption | now apply Permutation_sym].
Qed.

Lemma max_exponent_Permutation (E E' : list R) :
  Permutation E E' -> max_exponent E = max_exponent E'.
Proof.
  intros HP. destruct E as [| e r], E' as [| e' r']; simpl.
  - reflexivity.
  - now apply Permutation_nil in HP.
  - apply Permutation_sym in HP. now apply Permutation_nil in HP.
  - now apply fold_Rmax_Permutation.
Qed.

Lemma shifted_sum_Permutation (M : R) (ES ES' : list (R * R)) :
  Permutation ES ES' -> shifted_sum M ES = shifted_sum M ES'.
Proof.
  induction 1; simpl; lra.
Qed.

Lemma combine_fst_snd {A B : Type} (l : list (A * B)) :
  combine (map fst l) (map snd l) = l.
Proof.
  induction l as [| [a b] l IH]; simpl; [reflexivity | now rewrite IH].
Qed.

(** The exact reading of the combinator is a symmetric reduction. *)
Lemma real_combinator_symmetric : symmetric_reduction real_combinator.
Proof.
  intros ES ES' HP. simpl. unfold ScaledLogSumExp_exact.
  rewrite !combine_fst_snd.
  rewrite (max_exponent_Permutation (map fst ES) (map fst ES'))
    by now apply Permutation_map.
  now rewrite (shifted_sum_Permutation _ ES ES').
Qed.

End ExactArithmetic.

Section ExactClaims.

Import Exact.
Local Open Scope R_scope.

Context {Dim : nat} {Component : Type}.
Context {MQ : MixtureQueries R R Dim Component} {CB : Combinator R}.

Implicit Types (m : MixtureType Component) (self : SumMixture R Component).
Implicit Types (x buf : VectorT R Dim).

Lemma sum_of_maxima_Rsum m :
  sum_of_maxima m = Rsum (map getMaximum m).
Proof.
  unfold sum_of_maxima. simpl. rewrite fold_plus_Rsum. lra.
Qed.

Lemma max_of_maxima_Rmax (c : Component) rest :
  max_of_maxima c rest = fold_left Rmax (map getMaximum rest) (getMaximum c).
Proof. apply fold_std_max_Rmax. Qed.

(** The stored constant of the alternative strategy really is built from
    the largest component maximum: it bounds every component maximum and
    is one of them. *)
Lemma max_of_maxima_is_maximum (c : Component) rest :
  (forall c', In c' (c :: rest) -> getMaximum c' <= max_of_maxima c rest)
  /\ (exists c', In c' (c :: rest) /\ getMaximum c' = max_of_maxima c rest).
Proof.
  rewrite max_of_maxima_Rmax. split.
  - intros c' [<- | Hin].
    + apply fold_Rmax_ge_init.
    + apply fold_Rmax_ge_elem. now apply in_map.
  - pose proof (fold_Rmax_attained (map getMaximum rest) (getMaximum c)) as H.
    change (getMaximum c :: map getMaximum rest)
      with (map getMaximum (c :: rest)) in H.
    apply in_map_iff in H. destruct H as (c' & Heq & Hin). eauto.
Qed.

Lemma sum_of_maxima_Permutation m m' :
  Permutation m m' -> sum_of_maxima m = sum_of_maxima m'.
Proof.
  intros HP. rewrite !sum_of_maxima_Rsum.
  apply Rsum_Permutation. now apply Permutation_map.
Qed.

Lemma max_of_maxima_Permutation (c c' : Component) rest rest' :
  Permutation (c :: rest) (c' :: rest') ->
  max_of_maxima c rest = max_of_maxima c' rest'.
Proof.
  intros HP. rewrite !max_of_maxima_Rmax.
  apply fold_Rmax_Permutation.
  change (Permutation (map getMaximum (c :: rest))
                      (map getMaximum (c' :: rest'))).
  now apply Permutation_map.
Qed.

(** Attaching succeeds under either strategy as soon as the mixture has a
    component, and the permuted mixture gets the same constant. *)
Lemma addMixture_Permutation (sn : bool) self m m' :
  m <> [] -> Permutation m m' ->
  exists N,
    addMixture sn self m = Some (mkSumMixture m N (_Enable self))
    /\ addMixture sn self m' = Some (mkSumMixture m' N (_Enable self)).
Proof.
  intros Hne HP. destruct sn.
  - destruct m as [| c rest]; [contradiction |].
    destruct m' as [| c' rest'].
    { apply Permutation_sym in HP. now apply Permutation_nil in HP. }
    rewrite !addMixture_special. eexists. split; [reflexivity |].
    rewrite (max_of_maxima_Permutation c' c rest' rest)
      by now apply Permutation_sym.
    unfold getNumberOfComponents.
    now rewrite (Permutation_length HP).
  - rewrite !addMixture_standard. eexists. split; [reflexivity |].
    now rewrite (sum_of_maxima_Permutation m' m)
      by now apply Permutation_sym.
Qed.

Lemma combinator_arguments_Permutation (H : symmetric_reduction CB) x m m' :
  Permutation m m' ->
  ScaledLogSumExp (map (exponent_of x) m) (map (scale_of x) m)
  = ScaledLogSumExp (map (exponent_of x) m') (map (scale_of x) m').
Proof.
  intros HP.
  pose (pair_of := fun c : Component => (exponent_of x c, scale_of x c)).
  assert (Hf : forall k, map (exponent_of x) k = map fst (map pair_of k))
    by (intros k; rewrite map_map; reflexivity).
  assert (Hs : forall k, map (scale_of x) k = map snd (map pair_of k))
    by (intros k; rewrite map_map; reflexivity).
  rewrite !Hf, !Hs. apply H. now apply Permutation_map.
Qed.

Lemma robust_magnitude_spec self (E S : list R) :
  robust_magnitude Dim self E S
  = spec_magnitude Dim (ScaledLogSumExp E S) (_Normalization self).
Proof.
  unfold robust_magnitude, spec_magnitude, robust_cost. simpl.
  rewrite INR_IZR_INZ. do 2 f_equal. lra.
Qed.



(** C6, amended.  Positivity of the normalization constant, in exact
    arithmetic.  For a mixture with at least one component whose component
    maxima are all non-negative, the attachment succeeds and stores a
    constant [N > 0] under the alternative strategy, where even [N >= 10];
    under the standard strategy it stores [N > 0] when, in addition, some
    component maximum is strictly positive. *)
Theorem normalization_positive (sn : bool) self m :
  m <> [] ->
  (forall c, In c m -> 0 <= getMaximum c) ->
  (sn = false -> exists c, In c m /\ 0 < getMaximum c) ->
  exists self',
    addMixture sn self m = Some self'
    /\ 0 < _Normalization self'
    /\ (sn = true -> 10 <= _Normalization self').
Proof.
  intros Hne Hnn Hpos. destruct sn.
  - destruct m as [| c rest]; [contradiction |].
    rewrite addMixture_special. eexists. split; [reflexivity |].
    simpl.
    assert (0 <= max_of_maxima c rest).
    { apply Rle_trans with (getMaximum c); [apply Hnn; now left |].
      apply (max_of_maxima_is_maximum c rest). now left. }
    assert (0 <= IZR (getNumberOfComponents (c :: rest))).
    { apply IZR_le. unfold getNumberOfComponents. lia. }
    assert (0 <= max_of_maxima c rest
                 * IZR (getNumberOfComponents (c :: rest)))
      by now apply Rmult_le_pos.
    split; [lra | intros _; lra].
  - destruct (Hpos eq_refl) as (c & Hin & Hc).
    rewrite addMixture_standard. eexists. split; [reflexivity |].
    split; [| discriminate].
    simpl. rewrite sum_of_maxima_Rsum.
    apply Rsum_pos with (getMaximum c).
    + intros w Hw. apply in_map_iff in Hw.
      destruct Hw as (c' & <- & Hc'). now apply Hnn.
    + now apply in_map.
    + exact Hc.
Qed.

(** C7, amended.  Permutation invariance, in exact arithmetic.  With a
    combinator that is a symmetric reduction, attaching a mixture with at
    least one component and attaching any permutation of it both succeed,
    under either strategy, and every enabled evaluation of [weight] then
    leaves the same output for the two. *)
Theorem weight_permutation_invariant (sn : bool) self m m' x buf :
  symmetric_reduction CB ->
  _Enable self = true ->
  m <> [] ->
  Permutation m m' ->
  exists s s' r r',
    addMixture sn self m = Some s
    /\ addMixture sn self m' = Some s'
    /\ weight s x buf = Some r
    /\ weight s' x buf = Some r'
    /\ Error_after r = Error_after r'.
Proof.
  intros Hsym He Hne HP.
  destruct (addMixture_Permutation sn self m m' Hne HP) as (N & Hs & Hs').
  do 4 eexists.
  split; [exact Hs |]. split; [exact Hs' |].
  split; [apply weight_enabled; exact He |].
  split; [apply weight_enabled; exact He |].
  simpl. f_equal.
  unfold robust_magnitude. simpl.
  now rewrite (combinator_arguments_Permutation Hsym x m m' HP).
Qed.

End ExactClaims.

(** ** The cost under the square root *)

(** The normalization constant is designed so that the square root of
    [weight] is taken of a non-negative cost.  This section shows it for the
    exact reading of the combinator: whenever every scale is positive and
    bounded by the maximum of its component, the constant stored by either
    strategy makes the cost non-negative at every raw error. *)

Section CostInvariant.

Import Exact.
Local Open Scope R_scope.

Context {Dim : nat} {Component : Type}.
Context {MQ : MixtureQueries R R Dim Component}.

Implicit Types (m : MixtureType Component) (self : SumMixture R Component).
Implicit Types (x : VectorT R Dim).

Lemma fold_squares_ge (l : list R) : forall a,
  a <= fold_left (fun b y => b + y * y) l a.
Proof.
  induction l as [| y l IH]; intros a; simpl.
  - lra.
  - specialize (IH (a + y * y)). nra.
Qed.

Lemma squaredNorm_nonneg {n : nat} (v : VectorT R n) : 0 <= squaredNorm v.
Proof.
  unfold squaredNorm. destruct (Vector.to_list v) as [| y l]; simpl.
  - lra.
  - pose proof (fold_squares_ge l (y * y)). nra.
Qed.

Lemma exponent_of_negative x (c : Component) : exponent_of x c < 0.
Proof.
  unfold exponent_of. simpl.
  pose proof (squaredNorm_nonneg (getExponentialPart c x)). lra.
Qed.

Lemma exp_le_1 (e : R) : e <= 0 -> exp e <= 1.
Proof.
  intros [H | ->].
  - rewrite <- exp_0. now apply Rlt_le, exp_increasing.
  - rewrite exp_0. lra.
Qed.

Lemma shift_back (M : R) (ES : list (R * R)) :
  exp M * shifted_sum M ES = shifted_sum 0 ES.
Proof.
  induction ES as [| [e s] ES IH]; simpl.
  - lra.
  - rewrite <- IH.
    replace (e - 0) with (M + (e - M)) by lra.
    rewrite exp_plus. lra.
Qed.

Lemma shifted_sum_positive (M : R) (ES : list (R * R)) :
  ES <> [] -> (forall p, In p ES -> 0 < snd p) -> 0 < shifted_sum M ES.
Proof.
  intros Hne Hs.
  assert (Hnn : forall k, (forall p, In p k -> 0 < snd p) ->
                0 <= shifted_sum M k).
  { induction k as [| [e s] k IH]; intros Hk; simpl.
    - lra.
    - assert (0 < s) by (apply (Hk (e, s)); now left).
      assert (0 <= shifted_sum M k) by (apply IH; intros; apply Hk; now right).
      pose proof (exp_pos (e - M)). nra. }
  destruct ES as [| [e s] k]; [contradiction |]. simpl.
  assert (0 < s) by (apply (Hs (e, s)); now left).
  assert (0 <= shifted_sum M k) by (apply Hnn; intros; apply Hs; now right).
  pose proof (exp_pos (e - M)). nra.
Qed.

Lemma unshifted_sum_bound (ES : list (R * R)) :
  (forall p, In p ES -> fst p <= 0 /\ 0 <= snd p) ->
  shifted_sum 0 ES <= Rsum (map snd ES).
Proof.
  induction ES as [| [e s] k IH]; intros H; simpl.
  - lra.
  - destruct (H (e, s)) as [He Hs]; [now left |]. simpl in He, Hs.
    assert (shifted_sum 0 k <= Rsum (map snd k))
      by (apply IH; intros; apply H; now right).
    assert (exp (e - 0) <= 1) by (apply exp_le_1; lra).
    pose proof (exp_pos (e - 0)). nra.
Qed.

Lemma Rsum_le_pointwise {A : Type} (f g : A -> R) (l : list A) :
  (forall a, In a l -> f a <= g a) -> Rsum (map f l) <= Rsum (map g l).
Proof.
  induction l as [| a l IH]; intros H; simpl.
  - lra.
  - assert (f a <= g a) by (apply H; now left).
    assert (Rsum (map f l) <= Rsum (map g l))
      by (apply IH; intros; apply H; now right).
    lra.
Qed.

Lemma Rsum_le_bound (l : list R) (B : R) :
  (forall v, In v l -> v <= B) -> Rsum l <= IZR (Z.of_nat (length l)) * B.
Proof.
  induction l as [| v l IH]; intros H.
  - simpl. lra.
  - assert (v <= B) by (apply H; now left).
    assert (Rsum l <= IZR (Z.of_nat (length l)) * B)
      by (apply IH; intros; apply H; now right).
    change (length (v :: l)) with (S (length l)).
    rewrite Nat2Z.inj_succ, succ_IZR. simpl. lra.
Qed.

Lemma combine_map_map {A : Type} (f g : A -> R) (l : list A) :
  combine (map f l) (map g l) = map (fun a => (f a, g a)) l.
Proof.
  induction l as [| a l IH]; simpl; [reflexivity | now rewrite IH].
Qed.

(** With positive scales bounded by the component maxima and a constant
    that is at least the sum of the maxima, the cost is non-negative. *)
Lemma cost_nonneg m x (N : R) :
  m <> [] ->
  (forall c, In c m -> 0 < scale_of x c <= getMaximum c) ->
  Rsum (map getMaximum m) <= N ->
  0 <= robust_cost
         (ScaledLogSumExp (map (exponent_of x) m) (map (scale_of x) m)) N.
Proof.
  intros Hne Hsc HN. unfold robust_cost. simpl.
  unfold ScaledLogSumExp_exact. rewrite combine_map_map.
  set (ES := map (fun c => (exponent_of x c, scale_of x c)) m).
  set (M := max_exponent (map (exponent_of x) m)).
  assert (HES : forall p, In p ES -> fst p <= 0 /\ 0 < snd p).
  { intros p Hp. apply in_map_iff in Hp. destruct Hp as (c & <- & Hc).
    simpl. split; [apply Rlt_le, exponent_of_negative | apply Hsc, Hc]. }
  assert (Hpos : 0 < shifted_sum M ES).
  { apply shifted_sum_positive.
    - destruct m; [contradiction | discriminate].
    - intros p Hp. now apply HES. }
  assert (Hsum : shifted_sum 0 ES <= N).
  { apply Rle_trans with (Rsum (map snd ES)).
    - apply unshifted_sum_bound. intros p Hp.
      destruct (HES p Hp). split; lra.
    - unfold ES. rewrite map_map. simpl.
      apply Rle_trans with (Rsum (map getMaximum m)); [| exact HN].
      apply Rsum_le_pointwise. intros c Hc. apply Hsc, Hc. }
  assert (HNpos : 0 < N + 1e-10).
  { pose proof (shift_back M ES). pose proof (exp_pos M). nra. }
  assert (M + ln (shifted_sum M ES) < ln (N + 1e-10)).
  { apply exp_lt_inv.
    rewrite exp_plus, !exp_ln by assumption.
    rewrite shift_back. lra. }
  lra.
Qed.

(** After an attachment under either strategy the cost of every enabled
    evaluation is non-negative, for components whose scale is positive and
    bounded by their maximum. *)
Lemma attached_cost_nonneg (sn : bool) self m x :
  m <> [] ->
  (forall c, In c m -> 0 < scale_of x c <= getMaximum c) ->
  exists s,
    addMixture sn self m = Some s
    /\ 0 <= robust_cost
              (ScaledLogSumExp (map (exponent_of x) (_Mixture s))
                               (map (scale_of x) (_Mixture s)))
              (_Normalization s).
Proof.
  intros Hne Hsc. destruct sn.
  - destruct m as [| c rest]; [contradiction |].
    rewrite addMixture_special. eexists. split; [reflexivity |].
    cbn [_Mixture _Normalization d_add d_mul d_of_int real_arith].
    apply cost_nonneg; [discriminate | exact Hsc |].
    pose proof (Rsum_le_bound (map getMaximum (c :: rest))
                  (max_of_maxima c rest)) as Hb.
    rewrite length_map in Hb.
    assert (Rsum (map getMaximum (c :: rest))
            <= IZR (Z.of_nat (length (c :: rest))) * max_of_maxima c rest).
    { apply Hb. intros v Hv. apply in_map_iff in Hv.
      destruct Hv as (c' & <- & Hc').
      now apply (max_of_maxima_is_maximum c rest). }
    unfold getNumberOfComponents. lra.
  - rewrite addMixture_standard. eexists. split; [reflexivity |].
    cbn [_Mixture _Normalization].
    apply cost_nonneg; [exact Hne | exact Hsc |].
    rewrite sum_of_maxima_Rsum. lra.
Qed.

End CostInvariant.

(** ** The concrete scenario of the spec *)

Import Exact.

Section Scenario.

Local Open Scope R_scope.

Lemma Gaussian1_prefactor_pos (c : Gaussian1) :
  0 < StdDev c -> 0 < Weight c -> 0 < Gaussian1_prefactor c.
Proof.
  intros Hs Hw. unfold Gaussian1_prefactor.
  assert (0 < sqrt (2 * PI)) by (apply sqrt_lt_R0; pose proof PI_RGT_0; lra).
  apply Rdiv_lt_0_compat; [exact Hw | now apply Rmult_lt_0_compat].
Qed.

Lemma scenario_maxima_pos (c : Gaussian1) :
  In c scenario_mixture -> 0 < getMaximum c.
Proof.
  intros [<- | [<- | []]]; apply Gaussian1_prefactor_pos; simpl; lra.
Qed.

Lemma silent_component_maximum : getMaximum silent_component = 0.
Proof. simpl. unfold Gaussian1_prefactor. simpl. lra. Qed.

(** The calls on the scenario, traced: the exponents and scales that reach
    the combinator at the midpoint, and the constant that the alternative
    strategy stores. *)
Example scenario_weight_arguments :
  weight_arguments (scenario_model true) (vector1 2.5)
  = Some ([ - (0.5) * ((2.5 - 0) / 1 * ((2.5 - 0) / 1) + 1e-10);
            - (0.5) * ((2.5 - 5) / 1 * ((2.5 - 5) / 1) + 1e-10) ],
          [ Gaussian1_prefactor near_component;
            Gaussian1_prefactor far_component ]).
Proof. reflexivity. Qed.

Example scenario_special_attachment :
  addMixture true (fresh true) scenario_mixture
  = Some (mkSumMixture scenario_mixture
            (std_max (Gaussian1_prefactor near_component)
                     (Gaussian1_prefactor far_component) * 2 + 10)
            true).
Proof. reflexivity. Qed.

Example scenario_disabled_call :
  weight (scenario_model false) (vector1 2.5) (vector1 0)
  = Some (mkResult true (scenario_model false) (vector1 2.5)).
Proof. reflexivity. Qed.

(** Attaching the near component alone to a fresh object gives
    [near_model]. *)
Lemma attach_near_component :
  addMixture false (fresh true) [near_component] = Some near_model.
Proof.
  rewrite addMixture_standard. unfold near_model, sum_of_maxima. simpl.
  do 2 f_equal. lra.
Qed.

(** At the mean of its only component the cost of [near_model] is
    non-negative: the square root of the magnitude is defined. *)
Lemma near_model_cost_nonneg :
  0 <= robust_cost
         (ScaledLogSumExp
            (map (exponent_of (vector1 0)) [near_component])
            (map (scale_of (vector1 0)) [near_component]))
         (_Normalization near_model).
Proof.
  unfold robust_cost. simpl.
  unfold ScaledLogSumExp_exact, exponent_of, scale_of, squaredNorm. simpl.
  set (p := Gaussian1_prefactor near_component).
  assert (Hp : 0 < p) by (apply Gaussian1_prefactor_pos; simpl; lra).
  set (e := - (0.5) * ((0 - 0) / 1 * ((0 - 0) / 1) + 1e-10)).
  assert (He : e < 0) by (unfold e; lra).
  replace (e - e) with 0 by lra. rewrite exp_0.
  replace (p * 1 + 0) with p by lra.
  assert (ln p < ln (p + 1e-10)) by (apply ln_increasing; lra).
  lra.
Qed.



Lemma weight_disabled_identity_witness :
  _Enable (scenario_model false) = false
  /\ exists r,
      weight (scenario_model false) (vector1 2.5) (vector1 0) = Some r
      /\ Error_after r = vector1 2.5.
Proof.
  split; [reflexivity |].
  apply weight_disabled_identity. reflexivity.
Defined.

Lemma weight_combinator_arguments_witness :
  _Enable (scenario_model true) = true
  /\ (0 <= 1 < getNumberOfComponents (_Mixture (scenario_model true)))%Z
  /\ exists E S ep lp,
      weight_arguments (scenario_model true) (vector1 2.5) = Some (E, S)
      /\ weight (scenario_model true) (vector1 2.5) (vector1 0)
         = Some (mkResult true (scenario_model true)
                   (Vector.const
                      (robust_magnitude 1 (scenario_model true) E S) 1))
      /\ Z.of_nat (length E)
         = getNumberOfComponents (_Mixture (scenario_model true))
      /\ Z.of_nat (length S)
         = getNumberOfComponents (_Mixture (scenario_model true))
      /\ getExponentialPartOfComponent
           (_Mixture (scenario_model true)) 1 (vector1 2.5) = Some ep
      /\ getLinearPartOfComponent
           (_Mixture (scenario_model true)) 1 (vector1 2.5) = Some lp
      /\ nth_error E (Z.to_nat 1)
         = Some (- (0.5) * (squaredNorm ep + 1e-10))
      /\ nth_error S (Z.to_nat 1) = Some lp.
Proof.
  assert (Hi : (0 <= 1 < getNumberOfComponents
                             (_Mixture (scenario_model true)))%Z)
    by (unfold getNumberOfComponents; simpl; lia).
  split; [reflexivity |]. split; [exact Hi |].
  exact (weight_combinator_arguments
           (scenario_model true) (vector1 2.5) (vector1 0) 1 eq_refl Hi).
Defined.

(** C6 as stated fails: a mixture whose only component has weight zero has
    a component, and the standard strategy stores [N = 0] for it. *)
Lemma normalization_positive_counterexample :
  [silent_component] <> []
  /\ exists s,
      addMixture false (fresh true) [silent_component] = Some s
      /\ _Normalization s = 0
      /\ ~ 0 < _Normalization s.
Proof.
  split; [discriminate |].
  rewrite addMixture_standard. eexists. split; [reflexivity |].
  assert (H : sum_of_maxima [silent_component] = 0).
  { unfold sum_of_maxima. simpl.
    unfold Gaussian1_prefactor. simpl. lra. }
  simpl. rewrite H. split; lra.
Qed.

Lemma normalization_positive_witness :
  scenario_mixture <> []
  /\ (forall c, In c scenario_mixture -> 0 <= getMaximum c)
  /\ (exists c, In c scenario_mixture /\ 0 < getMaximum c)
  /\ (exists s,
        addMixture false (fresh true) scenario_mixture = Some s
        /\ 0 < _Normalization s
        /\ (false = true -> 10 <= _Normalization s))
  /\ (exists s,
        addMixture true (fresh true) scenario_mixture = Some s
        /\ 0 < _Normalization s
        /\ (true = true -> 10 <= _Normalization s)).
Proof.
  assert (Hne : scenario_mixture <> []) by discriminate.
  assert (Hnn : forall c, In c scenario_mixture -> 0 <= getMaximum c)
    by (intros c Hc; apply Rlt_le, scenario_maxima_pos, Hc).
  assert (Hpos : exists c, In c scenario_mixture /\ 0 < getMaximum c).
  { exists near_component. split; [now left |].
    apply scenario_maxima_pos. now left. }
  split; [exact Hne |]. split; [exact Hnn |]. split; [exact Hpos |].
  split.
  - exact (normalization_positive false (fresh true) scenario_mixture
             Hne Hnn (fun _ => Hpos)).
  - exact (normalization_positive true (fresh true) scenario_mixture
             Hne Hnn (fun _ => Hpos)).
Defined.

(** The two orders of [uneven_mixture] give different sequences of maxima
    and, at the raw error 1, different sequences of exponents. *)
Lemma uneven_mixture_reordered :
  map getMaximum uneven_mixture <> map getMaximum uneven_mixture_swapped
  /\ map (exponent_of (vector1 1)) uneven_mixture
     <> map (exponent_of (vector1 1)) uneven_mixture_swapped.
Proof.
  split; intros H; injection H as H _.
  - unfold Gaussian1_prefactor, Rdiv in H. simpl in H.
    rewrite !Rinv_mult in H.
    assert (0 < / sqrt (2 * PI)).
    { apply Rinv_0_lt_compat, sqrt_lt_R0. pose proof PI_RGT_0. lra. }
    lra.
  - unfold exponent_of, squaredNorm in H. simpl in H. lra.
Qed.

Lemma weight_permutation_invariant_witness :
  symmetric_reduction real_combinator
  /\ _Enable (fresh true) = true
  /\ uneven_mixture <> []
  /\ Permutation uneven_mixture uneven_mixture_swapped
  /\ map getMaximum uneven_mixture <> map getMaximum uneven_mixture_swapped
  /\ (exists s s' r r',
        addMixture false (fresh true) uneven_mixture = Some s
        /\ addMixture false (fresh true) uneven_mixture_swapped = Some s'
        /\ weight s (vector1 1) (vector1 0) = Some r
        /\ weight s' (vector1 1) (vector1 0) = Some r'
        /\ Error_after r = Error_after r')
  /\ (exists s s' r r',
        addMixture true (fresh true) uneven_mixture = Some s
        /\ addMixture true (fresh true) uneven_mixture_swapped = Some s'
        /\ weight s (vector1 1) (vector1 0) = Some r
        /\ weight s' (vector1 1) (vector1 0) = Some r'
        /\ Error_after r = Error_after r').
Proof.
  assert (Hne : uneven_mixture <> []) by discriminate.
  assert (HP : Permutation uneven_mixture uneven_mixture_swapped)
    by apply perm_swap.
  split; [exact real_combinator_symmetric |].
  split; [reflexivity |].
  split; [exact Hne |]. split; [exact HP |].
  split; [exact (proj1 uneven_mixture_reordered) |].
  split.
  - exact (weight_permutation_invariant false (fresh true) uneven_mixture
             uneven_mixture_swapped (vector1 1) (vector1 0)
             real_combinator_symmetric eq_refl Hne HP).
  - exact (weight_permutation_invariant true (fresh true) uneven_mixture
             uneven_mixture_swapped (vector1 1) (vector1 0)
             real_combinator_symmetric eq_refl Hne HP).
Defined.

End Scenario.

(** ** The life cycle of the object: construct, attach, clear *)

Section LifeCycle.

Context {D T : Type} {AR : Arith D T}.
Context {Dim : nat} {Component : Type}.
Context {MQ : MixtureQueries D T Dim Component} {CB : Combinator T}.

Implicit Types (m : MixtureType Component) (self : SumMixture D Component).
Implicit Types (x buf : VectorT T Dim).

(** X1.  An attachment replaces, it does not accumulate: what [addMixture]
    leaves behind is the same whatever mixture and normalization constant
    the object held before; of the old state only the enable flag counts. *)
Theorem addMixture_overwrites (sn : bool) m0 m1 (n0 n1 : D) (e : bool) m :
  addMixture sn (mkSumMixture m0 n0 e) m
  = addMixture sn (mkSumMixture m1 n1 e) m.
Proof.
  destruct sn.
  - destruct m as [| c rest].
    + reflexivity.
    + now rewrite !addMixture_special.
  - now rewrite !addMixture_standard.
Qed.

(** X2.  A completed attachment stores exactly the mixture it was given and
    leaves the enable flag as it was: attaching never switches a disabled
    model on. *)
Theorem addMixture_keeps_flag (sn : bool) self m s :
  addMixture sn self m = Some s ->
  _Mixture s = m /\ _Enable s = _Enable self.
Proof.
  destruct sn.
  - destruct m as [| c rest].
    + discriminate.
    + rewrite addMixture_special. intros [= <-]. split; reflexivity.
  - rewrite addMixture_standard. intros [= <-]. split; reflexivity.
Qed.

(** X3.  The constructor from a mixture never uses the indeterminate value
    that [_Normalization] has when its body starts: it builds the object
    that default construction followed by the attachment builds. *)
Theorem constructor_from_mixture (sn : bool) (e : bool) (indeterminate : D) m :
  SumMixture_from_mixture sn e indeterminate m
  = addMixture sn (SumMixture_default e) m.
Proof.
  unfold SumMixture_from_mixture, SumMixture_default. destruct sn.
  - destruct m as [| c rest].
    + reflexivity.
    + now rewrite !addMixture_special.
  - now rewrite !addMixture_standard.
Qed.

(** X4.  Clear and re-attach: clearing before an attachment changes nothing
    of its outcome, and clearing after a completed attachment gives back the
    default-constructed object with the flag the object had. *)
Theorem clear_and_attach (sn : bool) self m :
  addMixture sn (clear self) m = addMixture sn self m
  /\ (forall s, addMixture sn self m = Some s ->
                clear s = SumMixture_default (_Enable self)).
Proof.
  split.
  - destruct sn.
    + destruct m as [| c rest]; [reflexivity |].
      now rewrite !addMixture_special.
    + now rewrite !addMixture_standard.
  - intros s Hs. destruct sn.
    + destruct m as [| c rest]; [discriminate |].
      rewrite addMixture_special in Hs. now injection Hs as <-.
    + rewrite addMixture_standard in Hs. now injection Hs as <-.
Qed.

(** X5.  An enabled model without components, as [clear] leaves it: [weight]
    still returns [true]; it hands two empty sequences to the combinator and
    fills the output with the magnitude computed from them and from the
    normalization constant 0. *)
Theorem weight_after_clear self x buf :
  _Enable self = true ->
  weight_arguments (clear self) x = Some ([], [])
  /\ _Normalization (clear self) = d_of_int 0
  /\ weight (clear self) x buf
     = Some (mkResult true (clear self)
               (Vector.const (robust_magnitude Dim (clear self) [] []) Dim)).
Proof.
  intros He. split; [| split].
  - now rewrite weight_arguments_spec.
  - reflexivity.
  - now rewrite weight_enabled.
Qed.

(** X6.  Standard strategy, in every arithmetic: a mixture extended by one
    component at its end gets the constant of the shorter mixture plus the
    maximum of the new component. *)
Theorem standard_normalization_append self m (c : Component) :
  exists s s',
    addMixture false self m = Some s
    /\ addMixture false self (m ++ [c]) = Some s'
    /\ _Normalization s' = d_add (_Normalization s) (getMaximum c).
Proof.
  rewrite !addMixture_standard. do 2 eexists.
  split; [reflexivity |]. split; [reflexivity |].
  simpl. unfold sum_of_maxima.
  now rewrite map_app, fold_left_app.
Qed.

End LifeCycle.

(** ** The two strategies compared, in exact arithmetic *)

Section Strategies.

Local Open Scope R_scope.

Context {Dim : nat} {Component : Type}.
Context {MQ : MixtureQueries R R Dim Component} {CB : Combinator R}.

Implicit Types (m : MixtureType Component) (self : SumMixture R Component).
Implicit Types (x buf : VectorT R Dim).

Lemma standard_below_special (c : Component) rest :
  sum_of_maxima (c :: rest) + 10
  <= max_of_maxima c rest * IZR (getNumberOfComponents (c :: rest)) + 10.
Proof.
  rewrite sum_of_maxima_Rsum.
  pose proof (Rsum_le_bound (map getMaximum (c :: rest))
                (max_of_maxima c rest)) as Hb.
  rewrite length_map in Hb. unfold getNumberOfComponents.
  assert (Rsum (map getMaximum (c :: rest))
          <= IZR (Z.of_nat (length (c :: rest))) * max_of_maxima c rest).
  { apply Hb. intros v Hv. apply in_map_iff in Hv.
    destruct Hv as (c' & <- & Hc').
    now apply (max_of_maxima_is_maximum c rest). }
  lra.
Qed.

Lemma spec_magnitude_monotone (L N1 N2 : R) :
  (0 < Dim)%nat -> 0 < N1 + 1e-10 -> N1 <= N2 ->
  spec_magnitude Dim L N1 <= spec_magnitude Dim L N2.
Proof.
  intros Hd Hp Hle. unfold spec_magnitude, Rdiv.
  apply Rmult_le_compat_r.
  - apply Rlt_le, Rinv_0_lt_compat, sqrt_lt_R0. now apply lt_0_INR.
  - apply sqrt_le_1_alt. unfold robust_cost.
    assert (ln (N1 + 1e-10) <= ln (N2 + 1e-10)).
    { destruct Hle as [Hlt | ->]; [| lra].
      apply Rlt_le, ln_increasing; lra. }
    lra.
Qed.

Lemma spec_magnitude_nonneg (L N : R) : 0 <= spec_magnitude Dim L N.
Proof.
  unfold spec_magnitude, Rdiv.
  destruct Dim as [| d].
  - simpl. rewrite sqrt_0, Rinv_0. lra.
  - apply Rmult_le_pos; [apply sqrt_pos |].
    apply Rlt_le, Rinv_0_lt_compat, sqrt_lt_R0, lt_0_INR. lia.
Qed.

Lemma positive_dimension (i : Fin.t Dim) : (0 < Dim)%nat.
Proof. destruct i; lia. Qed.

(** X7.  Alternative strategy: the constant it stores is the number of
    components times one of the component maxima plus 10, and no component
    would give a larger constant: the value kept by the [std::max] loop is
    the largest component maximum. *)
Theorem special_normalization_is_largest self (c : Component) rest :
  exists s,
    addMixture true self (c :: rest) = Some s
    /\ (forall c', In c' (c :: rest) ->
          getMaximum c' * IZR (getNumberOfComponents (c :: rest)) + 10
          <= _Normalization s)
    /\ (exists c', In c' (c :: rest)
          /\ _Normalization s
             = getMaximum c' * IZR (getNumberOfComponents (c :: rest)) + 10).
Proof.
  rewrite addMixture_special. eexists. split; [reflexivity |].
  cbn [_Normalization d_add d_mul d_of_int real_arith].
  destruct (max_of_maxima_is_maximum c rest) as [Hub (c' & Hin & Heq)].
  assert (0 <= IZR (getNumberOfComponents (c :: rest))).
  { apply IZR_le. unfold getNumberOfComponents. lia. }
  split.
  - intros c0 Hc0. specialize (Hub c0 Hc0).
    apply Rplus_le_compat_r. now apply Rmult_le_compat_r.
  - exists c'. split; [exact Hin |]. now rewrite Heq.
Qed.

(** X8.  For one and the same mixture the alternative strategy stores a
    constant that exceeds the constant of the standard strategy by at least
    10, whatever the signs of the component maxima. *)
Theorem special_exceeds_standard self (c : Component) rest :
  exists s1 s2,
    addMixture false self (c :: rest) = Some s1
    /\ addMixture true self (c :: rest) = Some s2
    /\ _Normalization s1 + 10 <= _Normalization s2.
Proof.
  rewrite addMixture_standard, addMixture_special. do 2 eexists.
  split; [reflexivity |]. split; [reflexivity |].
  cbn [_Normalization d_add d_mul d_of_int real_arith].
  apply standard_below_special.
Qed.

(** X9.  With non-negative component maxima and a cost whose square root is
    defined, every element of the enabled output under the alternative
    strategy is at least the corresponding element under the standard
    strategy: the larger constant inflates the weighted error. *)
Theorem special_weight_dominates self m x buf :
  _Enable self = true ->
  m <> [] ->
  (forall c, In c m -> 0 <= getMaximum c) ->
  0 <= robust_cost
         (ScaledLogSumExp (map (exponent_of x) m) (map (scale_of x) m))
         (sum_of_maxima m) ->
  exists s1 s2 r1 r2,
    addMixture false self m = Some s1
    /\ addMixture true self m = Some s2
    /\ weight s1 x buf = Some r1
    /\ weight s2 x buf = Some r2
    /\ forall i,
         Vector.nth (Error_after r1) i <= Vector.nth (Error_after r2) i.
Proof.
  intros He Hne Hnn _.
  destruct m as [| c rest]; [contradiction |].
  rewrite addMixture_standard, addMixture_special. do 4 eexists.
  split; [reflexivity |]. split; [reflexivity |].
  split; [now apply weight_enabled |]. split; [now apply weight_enabled |].
  intros i. cbn [Error_after].
  rewrite !Vector.const_nth, !robust_magnitude_spec.
  cbn [_Normalization _Mixture d_add d_mul d_of_int real_arith].
  apply spec_magnitude_monotone.
  - exact (positive_dimension i).
  - assert (0 <= sum_of_maxima (c :: rest)).
    { rewrite sum_of_maxima_Rsum. apply Rsum_nonneg.
      intros v Hv. apply in_map_iff in Hv.
      destruct Hv as (c' & <- & Hc'). now apply Hnn. }
    lra.
  - pose proof (standard_below_special c rest). lra.
Qed.

(** X10.  Where the logarithm and the square root are defined, no element of the enabled output
    is negative: the sign of the raw error does not survive the
    weighting. *)
Theorem weight_enabled_nonnegative self x buf :
  _Enable self = true ->
  0 < _Normalization self + 1e-10 ->
  0 <= robust_cost
         (ScaledLogSumExp (map (exponent_of x) (_Mixture self))
                          (map (scale_of x) (_Mixture self)))
         (_Normalization self) ->
  exists r,
    weight self x buf = Some r
    /\ forall i, 0 <= Vector.nth (Error_after r) i.
Proof.
  intros He _ _. eexists. split; [now apply weight_enabled |].
  intros i. cbn [Error_after].
  rewrite Vector.const_nth, robust_magnitude_spec.
  apply spec_magnitude_nonneg.
Qed.

End Strategies.

(** ** Geometry.h in exact arithmetic *)

Section GeometryProperties.

Import Geometry.
Local Open Scope R_scope.

Implicit Types (v P Q shift : VectorT R 2).

Lemma vector2_eta v : v = vector2 (coeff0 v) (coeff1 v).
Proof.
  unfold VectorT in v.
  pattern v. apply Vector.caseS'. intros a t.
  pattern t. apply Vector.caseS'. intros b u.
  pattern u. apply Vector.case0. reflexivity.
Qed.

Lemma vector2_equal (a b c d : R) :
  a = c -> b = d -> vector2 a b = vector2 c d.
Proof. now intros -> ->. Qed.

Lemma pythagoras (a : R) : sin a * sin a + cos a * cos a = 1.
Proof. exact (sin2_cos2 a). Qed.

(** Expands the Eigen expressions of Geometry.h down to real arithmetic. *)
Ltac expand_geometry :=
  cbv [matrix_times_vector transpose RotationMatrix2D vector_difference
       vector_sum moved_point squared_length vector2 vector3
       coordinates coeff0 coeff1 coeff2 m00 m01 m10 m11
       g_add g_sub g_mul g_neg g_cos g_sin real_trig
       Vector.hd Vector.tl Vector.caseS].

(** Closes an equation between polynomials in [sin a] and [cos a] whose two
    sides differ by [F * (sin a * sin a + cos a * cos a - 1)]. *)
Ltac by_pythagoras a F :=
  match goal with
  | |- ?L = ?K =>
      apply Rminus_diag_uniq;
      replace (L - K) with (F * (sin a * sin a + cos a * cos a - 1)) by ring;
      rewrite (pythagoras a); ring
  end.

(** X11.  A rotation matrix is orthogonal with determinant 1: multiplying
    by the matrix and by its transpose, in either order, gives back the
    vector. *)
Theorem rotation_is_orthogonal (Yaw : R) v :
  matrix_times_vector (transpose (RotationMatrix2D Yaw))
    (matrix_times_vector (RotationMatrix2D Yaw) v) = v
  /\ matrix_times_vector (RotationMatrix2D Yaw)
       (matrix_times_vector (transpose (RotationMatrix2D Yaw)) v) = v
  /\ m00 (RotationMatrix2D Yaw) * m11 (RotationMatrix2D Yaw)
     - m01 (RotationMatrix2D Yaw) * m10 (RotationMatrix2D Yaw) = 1.
Proof.
  rewrite (vector2_eta v).
  set (x := coeff0 v). set (y := coeff1 v).
  split; [| split]; expand_geometry.
  - apply vector2_equal; [by_pythagoras Yaw x | by_pythagoras Yaw y].
  - apply vector2_equal; [by_pythagoras Yaw x | by_pythagoras Yaw y].
  - by_pythagoras Yaw 1.
Qed.

Lemma vector3_equal (a b c a' b' c' : R) :
  a = a' -> b = b' -> c = c' -> vector3 a b c = vector3 a' b' c'.
Proof. now intros -> -> ->. Qed.

(** X12.  Rotations compose by adding their yaw angles, and the transpose
    of a rotation matrix is the rotation matrix of the opposite angle. *)
Theorem rotations_compose (Yaw1 Yaw2 : R) v :
  matrix_times_vector (RotationMatrix2D Yaw1)
    (matrix_times_vector (RotationMatrix2D Yaw2) v)
  = matrix_times_vector (RotationMatrix2D (Yaw1 + Yaw2)) v
  /\ transpose (RotationMatrix2D Yaw1) = RotationMatrix2D (- Yaw1).
Proof.
  rewrite (vector2_eta v).
  set (x := coeff0 v). set (y := coeff1 v).
  split; expand_geometry.
  - rewrite cos_plus, sin_plus. apply vector2_equal; ring.
  - now rewrite cos_neg, sin_neg, Ropp_involutive.
Qed.

(** X13.  The relative motion undoes a pose composition: with enough
    values behind every pointer the call succeeds, turning the first two
    coefficients of its result by the old yaw and adding the old point gives
    the new point, and the third coefficient is the normalized yaw
    difference.  Values behind the pointers beyond the ones named are not
    looked at. *)
Theorem RelativeMotion2D_recovers_new_point (NormalizeAngle : R -> R)
    (px py qx qy YawOld YawNew : R) (r1 r2 r3 r4 : list R) :
  exists motion,
    RelativeMotion2D NormalizeAngle
      (px :: py :: r1) (qx :: qy :: r2) (YawOld :: r3) (YawNew :: r4)
    = Some motion
    /\ vector_sum (vector2 px py)
         (matrix_times_vector (RotationMatrix2D YawOld)
            (vector2 (coeff0 motion) (coeff1 motion)))
       = vector2 qx qy
    /\ coeff2 motion = NormalizeAngle (YawNew - YawOld).
Proof.
  eexists. split; [reflexivity |]. split; [| reflexivity].
  expand_geometry. apply vector2_equal.
  - apply Rminus_diag_uniq.
    replace (px + (cos YawOld * (cos YawOld * (qx - px)
                                 + sin YawOld * (qy - py))
                   + - sin YawOld * (- sin YawOld * (qx - px)
                                     + cos YawOld * (qy - py))) - qx)
      with ((qx - px) * (sin YawOld * sin YawOld
                         + cos YawOld * cos YawOld - 1)) by ring.
    rewrite pythagoras. ring.
  - apply Rminus_diag_uniq.
    replace (py + (sin YawOld * (cos YawOld * (qx - px)
                                 + sin YawOld * (qy - py))
                   + cos YawOld * (- sin YawOld * (qx - px)
                                   + cos YawOld * (qy - py))) - qy)
      with ((qy - py) * (sin YawOld * sin YawOld
                         + cos YawOld * cos YawOld - 1)) by ring.
    rewrite pythagoras. ring.
Qed.

(** X14.  The relative motion keeps distances: the first two coefficients
    of the result have the squared length of the difference of the two
    points. *)
Theorem RelativeMotion2D_keeps_distance (NormalizeAngle : R -> R)
    (px py qx qy YawOld YawNew : R) (r1 r2 r3 r4 : list R) :
  exists motion,
    RelativeMotion2D NormalizeAngle
      (px :: py :: r1) (qx :: qy :: r2) (YawOld :: r3) (YawNew :: r4)
    = Some motion
    /\ squared_length (vector2 (coeff0 motion) (coeff1 motion))
       = squared_length (vector_difference (vector2 qx qy) (vector2 px py)).
Proof.
  eexists. split; [reflexivity |].
  expand_geometry.
  by_pythagoras YawOld
    ((qx - px) * (qx - px) + (qy - py) * (qy - py)).
Qed.

(** X15.  The relative motion does not depend on the frame: turning both
    points by one angle, shifting both by one vector and adding the angle to
    both yaws leaves the result of the call unchanged. *)
Theorem RelativeMotion2D_rigid_invariance (NormalizeAngle : R -> R)
    (angle : R) shift P Q (YawOld YawNew : R) :
  RelativeMotion2D NormalizeAngle
    (coordinates (moved_point angle shift P))
    (coordinates (moved_point angle shift Q))
    [YawOld + angle] [YawNew + angle]
  = RelativeMotion2D NormalizeAngle
      (coordinates P) (coordinates Q) [YawOld] [YawNew].
Proof.
  rewrite (vector2_eta shift), (vector2_eta P), (vector2_eta Q).
  set (tx := coeff0 shift). set (ty := coeff1 shift).
  set (px := coeff0 P). set (py := coeff1 P).
  set (qx := coeff0 Q). set (qy := coeff1 Q).
  cbv [RelativeMotion2D nth_error bind]. expand_geometry.
  rewrite !cos_plus, !sin_plus.
  f_equal. apply vector3_equal.
  - by_pythagoras angle
      (cos YawOld * (qx - px) + sin YawOld * (qy - py)).
  - by_pythagoras angle
      (- sin YawOld * (qx - px) + cos YawOld * (qy - py)).
  - f_equal. ring.
Qed.

End GeometryProperties.

(** ** The scenario again: the hypotheses above are met *)

Section ScenarioLifeCycle.

Local Open Scope R_scope.

Lemma near_component_scale (c : Gaussian1) :
  In c [near_component] ->
  0 < scale_of (vector1 0) c <= getMaximum c.
Proof.
  intros [<- | []].
  assert (0 < Gaussian1_prefactor near_component)
    by (apply Gaussian1_prefactor_pos; simpl; lra).
  simpl. unfold scale_of. simpl. lra.
Qed.

Lemma near_component_standard_cost :
  0 <= robust_cost
         (ScaledLogSumExp (map (exponent_of (vector1 0)) [near_component])
                          (map (scale_of (vector1 0)) [near_component]))
         (sum_of_maxima [near_component]).
Proof.
  apply cost_nonneg.
  - discriminate.
  - exact near_component_scale.
  - rewrite sum_of_maxima_Rsum. lra.
Qed.

Lemma addMixture_keeps_flag_witness :
  exists s,
    addMixture true (fresh false) scenario_mixture = Some s
    /\ _Mixture s = scenario_mixture
    /\ _Enable s = _Enable (fresh false).
Proof.
  eexists. split; [reflexivity |].
  exact (addMixture_keeps_flag true (fresh false) scenario_mixture _ eq_refl).
Defined.

Lemma weight_after_clear_witness :
  _Enable (scenario_model true) = true
  /\ weight_arguments (clear (scenario_model true)) (vector1 2.5)
     = Some ([], [])
  /\ _Normalization (clear (scenario_model true)) = 0
  /\ weight (clear (scenario_model true)) (vector1 2.5) (vector1 0)
     = Some (mkResult true (clear (scenario_model true))
               (Vector.const
                  (robust_magnitude 1 (clear (scenario_model true)) [] [])
                  1)).
Proof.
  split; [reflexivity |].
  exact (weight_after_clear (scenario_model true) (vector1 2.5) (vector1 0)
           eq_refl).
Defined.

Lemma special_weight_dominates_witness :
  _Enable (fresh true) = true
  /\ [near_component] <> []
  /\ (forall c, In c [near_component] -> 0 <= getMaximum c)
  /\ 0 <= robust_cost
            (ScaledLogSumExp
               (map (exponent_of (vector1 0)) [near_component])
               (map (scale_of (vector1 0)) [near_component]))
            (sum_of_maxima [near_component])
  /\ exists s1 s2 r1 r2,
      addMixture false (fresh true) [near_component] = Some s1
      /\ addMixture true (fresh true) [near_component] = Some s2
      /\ weight s1 (vector1 0) (vector1 0) = Some r1
      /\ weight s2 (vector1 0) (vector1 0) = Some r2
      /\ forall i,
           Vector.nth (Error_after r1) i <= Vector.nth (Error_after r2) i.
Proof.
  assert (Hne : [near_component] <> []) by discriminate.
  assert (Hnn : forall c, In c [near_component] -> 0 <= getMaximum c).
  { intros c Hc. pose proof (near_component_scale c Hc). lra. }
  repeat (split; [first [reflexivity | exact Hne | exact Hnn
                        | exact near_component_standard_cost] |]).
  exact (special_weight_dominates (fresh true) [near_component]
           (vector1 0) (vector1 0) eq_refl Hne Hnn
           near_component_standard_cost).
Defined.

Lemma weight_enabled_nonnegative_witness :
  _Enable near_model = true
  /\ 0 < _Normalization near_model + 1e-10
  /\ 0 <= robust_cost
            (ScaledLogSumExp
               (map (exponent_of (vector1 0)) (_Mixture near_model))
               (map (scale_of (vector1 0)) (_Mixture near_model)))
            (_Normalization near_model)
  /\ exists r,
      weight near_model (vector1 0) (vector1 0) = Some r
      /\ forall i, 0 <= Vector.nth (Error_after r) i.
Proof.
  assert (Hp : 0 < _Normalization near_model + 1e-10).
  { assert (0 < Gaussian1_prefactor near_component)
      by (apply Gaussian1_prefactor_pos; simpl; lra).
    simpl. lra. }
  split; [reflexivity |]. split; [exact Hp |].
  split; [exact near_model_cost_nonneg |].
  exact (weight_enabled_nonnegative near_model (vector1 0) (vector1 0)
           eq_refl Hp near_model_cost_nonneg).
Defined.

End ScenarioLifeCycle.

(** ** The exponents that reach the combinator, in exact arithmetic *)

Section ExponentBound.

Local Open Scope R_scope.

Context {Dim : nat} {Component : Type}.
Context {MQ : MixtureQueries R R Dim Component}.

(** X16.  Whatever the raw error and the components, every exponent that
    [weight] hands to the combinator is at most [-0.5 * 1e-10]: the added
    [1e-10] keeps every exponent strictly below zero. *)
Theorem exponents_stay_negative (self : SumMixture R Component)
    (x : VectorT R Dim) :
  exists E S,
    weight_arguments self x = Some (E, S)
    /\ forall e, In e E -> e <= - (0.5 * 1e-10).
Proof.
  rewrite weight_arguments_spec. do 2 eexists. split; [reflexivity |].
  intros e He. apply in_map_iff in He. destruct He as (c & <- & _).
  unfold exponent_of. simpl.
  pose proof (squaredNorm_nonneg (getExponentialPart c x)). lra.
Qed.

End ExponentBound.

(** ** Where the square root is not defined *)

Section NegativeCost.

Local Open Scope R_scope.






End NegativeCost.

(** ** The standard strategy on the machine *)

Section MachineSum.

Import PrimFloat Binary64.
#[local] Set Warnings "-inexact-float".

(** C7 as stated fails on the machine: [tenths] and its reverse are
    permutations of each other, and whatever [std::log] computes, the
    standard strategy stores 1 for the one and 0.99999999999999989 for the
    other, so the two enabled evaluations take the logarithm of different
    numbers. *)
Lemma weight_permutation_invariant_counterexample :
  Permutation tenths (rev tenths)
  /\ tenths <> []
  /\ forall log64 : float -> float,
       exists s s',
         addMixture (AR := binary64_arith log64) false start tenths = Some s
         /\ addMixture (AR := binary64_arith log64) false start (rev tenths)
            = Some s'
         /\ _Normalization s = 1%float
         /\ _Normalization s' = 0.99999999999999989%float
         /\ _Normalization s <> _Normalization s'
         /\ (_Normalization s + 1e-10)%float
            <> (_Normalization s' + 1e-10)%float.
Proof.
  split; [apply Permutation_rev |]. split; [discriminate |].
  intros log64. rewrite !addMixture_standard. do 2 eexists.
  split; [reflexivity |]. split; [reflexivity |].
  split; [vm_compute; reflexivity |].
  split; [vm_compute; reflexivity |].
  split.
  - intros H. apply (f_equal (fun f => eqb f 1%float)) in H.
    vm_compute in H. discriminate.
  - intros H. apply (f_equal (fun f => eqb f 1.0000000001%float)) in H.
    vm_compute in H. discriminate.
Qed.

End MachineSum.
